(** * Voting: a shallow embedding of the [Voting] contract

    The contract (Solidity ^0.8.9) keeps an owner, an append-only array of
    proposals and a mapping recording which addresses have voted.  This
    file embeds its storage, its functions and the transaction semantics
    they run under (a failed [require] or a panic rolls the storage back),
    and proves the properties of the ledger.

    Conventions:
    - [uint] (uint256) and [address] (160 bit) values are [N]; the only
      arithmetic that can leave the range, [voteCount++], is checked as in
      Solidity 0.8 and panics with code 0x11.
    - a Solidity [string] is a [String.string], one character per byte, so
      [bytes(_name).length] is [String.length _name].
    - [mapping(address => bool)] is a [gmap N bool] read with default
      [false].
    - [console.log] has no effect on the storage and is left out. *)

From Stdlib Require Import NArith String.
From stdpp Require Import base numbers option list gmap strings.

Local Open Scope string_scope.
Local Open Scope N_scope.

Module Voting.

(** ** Storage *)

Abbreviation address := N (only parsing).
Abbreviation uint := N (only parsing).

(** [type(uint256).max] *)
Definition UINT_MAX : N := 2 ^ 256 - 1.

Record Proposal := mkProposal {
  name : string;
  voteCount : uint
}.

Inductive Event :=
| Voted (voter : address) (proposalIndex : uint)
| ProposalAdded (proposalIndex : uint) (name : string).

Record State := mkState {
  owner : address;
  proposals : list Proposal;
  hasVoted : gmap N bool;
  events : list Event
}.

(** Storage of a contract account before its constructor has run. *)
Definition storage0 : State :=
  {| owner := 0; proposals := []; hasVoted := ∅; events := [] |}.

(** ** Execution monad

    A function body is a state transformer that may fail.  On failure the
    second component is the storage reached when the failure happened;
    [transact] below then restores the storage of the call's start. *)

Inductive Error :=
| Revert (reason : string)
| Panic (code : N).

Inductive Result (A : Type) :=
| Ok (a : A)
| Err (e : Error).
Arguments Ok {A} a.
Arguments Err {A} e.

Definition is_ok {A} (r : Result A) : bool :=
  match r with Ok _ => true | Err _ => false end.

Definition Exec (A : Type) : Type := State -> Result A * State.

Definition ret {A} (a : A) : Exec A := fun s => (Ok a, s).

Definition bind {A B} (m : Exec A) (k : A -> Exec B) : Exec B :=
  fun s =>
    match m s with
    | (Ok a, s') => k a s'
    | (Err e, s') => (Err e, s')
    end.

Notation "'do' x <- m ;; k" := (bind m (fun x => k))
  (at level 10, x at level 99, m at level 99, k at level 200).
Notation "'do' m ;; k" := (bind m (fun _ => k))
  (at level 10, m at level 99, k at level 200).

Definition require (cond : bool) (reason : string) : Exec unit :=
  fun s => if cond then (Ok tt, s) else (Err (Revert reason), s).

Definition panic {A} (code : N) : Exec A :=
  fun s => (Err (Panic code), s).

Definition read {A} (f : State -> A) : Exec A := fun s => (Ok (f s), s).

Definition write (f : State -> State) : Exec unit := fun s => (Ok tt, f s).

(** ** Storage accessors *)

(** [proposals.length] *)
Definition proposals_length (s : State) : uint :=
  N.of_nat (length (proposals s)).

(** [hasVoted[a]], [false] for a key never written. *)
Definition hasVoted_at (a : address) (s : State) : bool :=
  default false (hasVoted s !! a).

Definition set_owner (a : address) (s : State) : State :=
  {| owner := a; proposals := proposals s;
     hasVoted := hasVoted s; events := events s |}.

(** [proposals.push(p)] *)
Definition push_proposal (p : Proposal) (s : State) : State :=
  {| owner := owner s; proposals := proposals s ++ [p];
     hasVoted := hasVoted s; events := events s |}.

(** [hasVoted[a] = b] *)
Definition set_hasVoted (a : address) (b : bool) (s : State) : State :=
  {| owner := owner s; proposals := proposals s;
     hasVoted := <[a := b]> (hasVoted s); events := events s |}.

(** [proposals[i] = p] for an index in range. *)
Definition set_proposal (i : uint) (p : Proposal) (s : State) : State :=
  {| owner := owner s; proposals := <[N.to_nat i := p]> (proposals s);
     hasVoted := hasVoted s; events := events s |}.

Definition emit (e : Event) : Exec unit :=
  write (fun s =>
    {| owner := owner s; proposals := proposals s;
       hasVoted := hasVoted s; events := events s ++ [e] |}).

(** [proposals[i]]: an index out of range panics with code 0x32. *)
Definition proposal_at (i : uint) : Exec Proposal :=
  fun s =>
    match proposals s !! N.to_nat i with
    | Some p => (Ok p, s)
    | None => (Err (Panic 50), s)
    end.

(** [proposals[i].voteCount++]: checked arithmetic, panic 0x11 when the
    counter is at [type(uint256).max]. *)
Definition incr_voteCount (i : uint) : Exec unit :=
  do p <- proposal_at i ;;
  if voteCount p <? UINT_MAX
  then write (set_proposal i {| name := name p; voteCount := voteCount p + 1 |})
  else panic 17.

(** ** Contract functions *)

Definition msg_only_owner : string := "Only owner can call this function.".
Definition msg_empty_name : string := "Proposal name cannot be empty.".
Definition msg_long_name : string := "Proposal name is too long.".
Definition msg_vote_index : string := "Voting: Invalid proposal index.".
Definition msg_already_voted : string := "Voting: You have already voted.".
Definition msg_get_index : string := "GetProposal: Invalid proposal index.".
Definition msg_no_proposals : string := "No proposals available".

(** [bytes(_name).length] *)
Definition bytes_length (_name : string) : uint :=
  N.of_nat (String.length _name).

(** modifier [onlyOwner] wrapped around a function body *)
Definition onlyOwner {A} (sender : address) (body : Exec A) : Exec A :=
  do o <- read owner ;;
  do require (sender =? o) msg_only_owner ;;
  body.

Definition _addProposalInternal (_name : string) : Exec unit :=
  do require (0 <? bytes_length _name) msg_empty_name ;;
  do require (bytes_length _name <? 100) msg_long_name ;;
  do newProposalIndex <- read proposals_length ;;
  do write (push_proposal {| name := _name; voteCount := 0 |}) ;;
  emit (ProposalAdded newProposalIndex _name).

Definition constructor (sender : address) : Exec unit :=
  do write (set_owner sender) ;;
  do _addProposalInternal "Proposal A: Fund Project Alpha" ;;
  do _addProposalInternal "Proposal B: Support Initiative Beta" ;;
  _addProposalInternal "Proposal C: Allocate Resources Gamma".

Definition addProposal (sender : address) (_name : string) : Exec unit :=
  onlyOwner sender (_addProposalInternal _name).

Definition vote (sender : address) (_proposalIndex : uint) : Exec unit :=
  do len <- read proposals_length ;;
  do require (_proposalIndex <? len) msg_vote_index ;;
  do voted <- read (hasVoted_at sender) ;;
  do require (negb voted) msg_already_voted ;;
  do write (set_hasVoted sender true) ;;
  do incr_voteCount _proposalIndex ;;
  emit (Voted sender _proposalIndex).

Definition getProposalsCount : Exec uint := read proposals_length.

Definition getProposal (_index : uint) : Exec (string * uint) :=
  do len <- read proposals_length ;;
  do require (_index <? len) msg_get_index ;;
  do proposal <- proposal_at _index ;;
  ret (name proposal, voteCount proposal).

(** The loop of [getWinner]: [rest] are the proposals from index [i] on,
    [best] is [(winningVoteCount, winningProposalIndex)]. *)
Fixpoint winner_scan (rest : list Proposal) (i : uint) (best : uint * uint)
  : uint * uint :=
  match rest with
  | [] => best
  | p :: rest' =>
      winner_scan rest' (i + 1)
        (if fst best <? voteCount p then (voteCount p, i) else best)
  end.

Definition getWinner : Exec string :=
  do len <- read proposals_length ;;
  if len =? 0 then ret msg_no_proposals
  else
    do best <- read (fun s => winner_scan (proposals s) 0 (0, 0)) ;;
    do p <- proposal_at (snd best) ;;
    ret (name p).

(** ** Transactions

    The external interface: a call names a public function and its
    arguments, the answer is the tuple of returned values. *)

Inductive Value :=
| VUint (n : uint)
| VString (s : string)
| VBool (b : bool)
| VAddress (a : address).

Inductive Call :=
| CallAddProposal (_name : string)
| CallVote (_proposalIndex : uint)
| CallGetProposalsCount
| CallGetProposal (_index : uint)
| CallHasVoted (a : address)
| CallOwner
| CallGetWinner.

Definition dispatch (sender : address) (c : Call) : Exec (list Value) :=
  match c with
  | CallAddProposal _name => do addProposal sender _name ;; ret []
  | CallVote i => do vote sender i ;; ret []
  | CallGetProposalsCount => do n <- getProposalsCount ;; ret [VUint n]
  | CallGetProposal i => do r <- getProposal i ;; ret [VString (fst r); VUint (snd r)]
  | CallHasVoted a => do b <- read (hasVoted_at a) ;; ret [VBool b]
  | CallOwner => do o <- read owner ;; ret [VAddress o]
  | CallGetWinner => do w <- getWinner ;; ret [VString w]
  end.

(** A transaction either commits the storage its body produced or, on any
    failure, leaves the storage it started from. *)
Definition transact (sender : address) (c : Call) (s : State)
  : Result (list Value) * State :=
  match dispatch sender c s with
  | (Ok v, s') => (Ok v, s')
  | (Err e, _) => (Err e, s)
  end.

(** Contract creation by [sender]. *)
Definition deploy (sender : address) : Result State :=
  match constructor sender storage0 with
  | (Ok _, s) => Ok s
  | (Err e, _) => Err e
  end.

(** The storage a ledger created by [sender] starts from. *)
Definition deployed (sender : address) : State :=
  snd (constructor sender storage0).

(** ** Error taxonomy

    The error kinds of the ledger interface and the [require] messages
    that stand for them. *)

Inductive ErrorKind :=
| Unauthorized
| InvalidProposal
| InvalidIndex
| AlreadyVoted.

Definition error_kind (e : Error) : option ErrorKind :=
  match e with
  | Revert m =>
      if String.eqb m msg_only_owner then Some Unauthorized
      else if String.eqb m msg_empty_name then Some InvalidProposal
      else if String.eqb m msg_long_name then Some InvalidProposal
      else if String.eqb m msg_vote_index then Some InvalidIndex
      else if String.eqb m msg_get_index then Some InvalidIndex
      else if String.eqb m msg_already_voted then Some AlreadyVoted
      else None
  | Panic _ => None
  end.

(** ** Histories

    A history is a list of transactions, oldest first. *)

Definition Tx : Type := N * Call.

Fixpoint run (tr : list Tx) (s : State) : State :=
  match tr with
  | [] => s
  | (sender, c) :: tr' => run tr' (snd (transact sender c s))
  end.

(** Number of transactions of the history, started in [s], that were
    accepted and satisfy [sel]. *)
Fixpoint accepted (sel : N -> Call -> bool) (tr : list Tx) (s : State) : nat :=
  match tr with
  | [] => 0%nat
  | (sender, c) :: tr' =>
      ((if is_ok (fst (transact sender c s)) && sel sender c then 1 else 0)
       + accepted sel tr' (snd (transact sender c s)))%nat
  end.

Definition is_addProposal (_ : N) (c : Call) : bool :=
  match c with CallAddProposal _ => true | _ => false end.

Definition is_vote_by (a : address) (sender : N) (c : Call) : bool :=
  match c with CallVote _ => sender =? a | _ => false end.

Definition is_vote_for (i : uint) (_ : N) (c : Call) : bool :=
  match c with CallVote j => j =? i | _ => false end.

Inductive reachable : State -> Prop :=
| reachable_deployed sender : reachable (deployed sender)
| reachable_transact sender c s :
    reachable s -> reachable (snd (transact sender c s)).

(** [proposals[i].voteCount], 0 where there is no proposal. *)
Definition voteCount_at (i : uint) (s : State) : uint :=
  from_option voteCount 0 (proposals s !! N.to_nat i).

(** The name length bound of [_addProposalInternal]. *)
Definition name_ok (p : Proposal) : Prop :=
  1 <= bytes_length (name p) <= 99.

(** Calls to [view] functions. *)
Definition is_view (c : Call) : bool :=
  match c with
  | CallAddProposal _ | CallVote _ => false
  | _ => true
  end.

(** Storage after an accepted [addProposal(_name)]. *)
Definition after_addProposal (_name : string) (s : State) : State :=
  {| owner := owner s;
     proposals := proposals s ++ [{| name := _name; voteCount := 0 |}];
     hasVoted := hasVoted s;
     events := events s ++ [ProposalAdded (proposals_length s) _name] |}.

(** Storage after an accepted [vote(i)] by [sender], where [p] is the
    proposal stored at [i]. *)
Definition after_vote (sender : address) (i : uint) (p : Proposal) (s : State)
  : State :=
  {| owner := owner s;
     proposals :=
       <[N.to_nat i := {| name := name p; voteCount := voteCount p + 1 |}]>
         (proposals s);
     hasVoted := <[sender := true]> (hasVoted s);
     events := events s ++ [Voted sender i] |}.

(** The three ways a transaction can end: nothing changed (a rejected
    call or a view), a proposal appended, a vote recorded. *)
Inductive Effect (sender : N) (s : State) (c : Call) : Prop :=
| effect_none :
    snd (transact sender c s) = s ->
    (is_ok (fst (transact sender c s)) = true -> is_view c = true) ->
    Effect sender s c
| effect_add _name :
    c = CallAddProposal _name ->
    sender = owner s ->
    1 <= bytes_length _name <= 99 ->
    transact sender c s = (Ok [], after_addProposal _name s) ->
    Effect sender s c
| effect_vote i p :
    c = CallVote i ->
    proposals s !! N.to_nat i = Some p ->
    hasVoted_at sender s = false ->
    voteCount p < UINT_MAX ->
    transact sender c s = (Ok [], after_vote sender i p s) ->
    Effect sender s c.

(** [p], stored at index [w], has the maximum vote count of [ps], and no
    proposal before [w] reaches it. *)
Definition first_max (ps : list Proposal) (w : uint) (p : Proposal) : Prop :=
  ps !! N.to_nat w = Some p /\
  (forall j q, ps !! j = Some q -> voteCount q <= voteCount p) /\
  (forall j q, (j < N.to_nat w)%nat -> ps !! j = Some q ->
               voteCount q < voteCount p).

(** Loop invariant of [getWinner] once the proposals [pre] are scanned. *)
Definition scan_inv (pre : list Proposal) (best : N * N) : Prop :=
  (pre = [] /\ best = (0, 0)) \/
  (exists p, first_max pre (snd best) p /\ voteCount p = fst best).

(** [1] when [a] is recorded as having voted, [0] otherwise. *)
Definition voted_bit (a : address) (s : State) : N :=
  if hasVoted_at a s then 1 else 0.

(** The proposals the constructor adds, in order. *)
Definition seed_proposals : list Proposal :=
  [ {| name := "Proposal A: Fund Project Alpha"; voteCount := 0 |};
    {| name := "Proposal B: Support Initiative Beta"; voteCount := 0 |};
    {| name := "Proposal C: Allocate Resources Gamma"; voteCount := 0 |} ].

(** ** Derived quantities and invariants *)

(** Number of values of the 160-bit [address] type. *)
Definition ADDRESS_BOUND : N := 2 ^ 160.

(** The senders of a history are addresses. *)
Definition senders_in_range (tr : list Tx) : Prop :=
  Forall (fun tx : Tx => fst tx < ADDRESS_BOUND) tr.

Definition is_vote (_ : N) (c : Call) : bool :=
  match c with CallVote _ => true | _ => false end.

(** Sum of the vote counts of all proposals. *)
Definition total_votes (s : State) : N :=
  foldr (fun p acc => voteCount p + acc) 0 (proposals s).

(** The proposal names, by index. *)
Definition names (s : State) : list string := name <$> proposals s.

(** Every entry of [hasVoted] holds [true], and there are as many entries
    as votes counted. *)
Definition votes_balanced (s : State) : Prop :=
  map_Forall (fun _ b => b = true) (hasVoted s) /\
  total_votes s = N.of_nat (size (hasVoted s)).

Definition voters_in_range (s : State) : Prop :=
  map_Forall (fun (a : N) (_ : bool) => a < ADDRESS_BOUND) (hasVoted s).

(** The [ProposalAdded] events of a log, oldest first. *)
Definition added_log (es : list Event) : list (N * string) :=
  omap (fun e => match e with
                 | ProposalAdded i nm => Some (i, nm)
                 | Voted _ _ => None
                 end) es.

(** The [Voted] events of a log, oldest first. *)
Definition voted_log (es : list Event) : list (N * N) :=
  omap (fun e => match e with
                 | Voted a i => Some (a, i)
                 | ProposalAdded _ _ => None
                 end) es.

(** The [ProposalAdded] events that describe the stored proposals. *)
Definition expected_added (s : State) : list (N * string) :=
  imap (fun i p => (N.of_nat i, name p)) (proposals s).

(** Number of [Voted] events for proposal [i]. *)
Definition votes_logged_for (i : N) (es : list Event) : nat :=
  length (filter (fun v : N * N => snd v = i) (voted_log es)).

Definition voted_log_matches (s : State) : Prop :=
  NoDup (fst <$> voted_log (events s)) /\
  (forall a, a ∈ fst <$> voted_log (events s) <-> hasVoted_at a s = true) /\
  (forall i, N.of_nat (votes_logged_for i (events s)) = voteCount_at i s).

(** [winningProposalIndex] at the end of the loop of [getWinner]. *)
Definition winner_index (s : State) : N :=
  snd (winner_scan (proposals s) 0 (0, 0)).

(** * Properties *)

(** ** One transaction *)

Section Step.
Variables (sender : N) (s : State).

Lemma transact_addProposal _name :
  transact sender (CallAddProposal _name) s =
    if sender =? owner s then
      if 0 <? bytes_length _name then
        if bytes_length _name <? 100 then (Ok [], after_addProposal _name s)
        else (Err (Revert msg_long_name), s)
      else (Err (Revert msg_empty_name), s)
    else (Err (Revert msg_only_owner), s).
Proof.
  unfold transact, dispatch, addProposal, onlyOwner, _addProposalInternal.
  unfold bind, read, require, write, emit, ret; simpl.
  destruct (sender =? owner s); [|done].
  destruct (0 <? bytes_length _name); [|done].
  by destruct (bytes_length _name <? 100).
Qed.

Lemma transact_vote i :
  transact sender (CallVote i) s =
    if i <? proposals_length s then
      if hasVoted_at sender s then (Err (Revert msg_already_voted), s)
      else
        match proposals s !! N.to_nat i with
        | Some p =>
            if voteCount p <? UINT_MAX then (Ok [], after_vote sender i p s)
            else (Err (Panic 17), s)
        | None => (Err (Panic 50), s)
        end
    else (Err (Revert msg_vote_index), s).
Proof.
  unfold transact, dispatch, vote, incr_voteCount, proposal_at.
  unfold bind, read, require, write, emit, ret, panic; simpl.
  destruct (i <? proposals_length s); [|done].
  destruct (hasVoted_at sender s); [done|]; simpl.
  destruct (proposals s !! N.to_nat i) as [p|]; [|done].
  by destruct (voteCount p <? UINT_MAX).
Qed.

Lemma transact_getProposal i :
  transact sender (CallGetProposal i) s =
    if i <? proposals_length s then
      match proposals s !! N.to_nat i with
      | Some p => (Ok [VString (name p); VUint (voteCount p)], s)
      | None => (Err (Panic 50), s)
      end
    else (Err (Revert msg_get_index), s).
Proof.
  unfold transact, dispatch, getProposal, proposal_at.
  unfold bind, read, require, ret; simpl.
  destruct (i <? proposals_length s); [|done].
  by destruct (proposals s !! N.to_nat i).
Qed.

Lemma transact_getProposalsCount :
  transact sender CallGetProposalsCount s = (Ok [VUint (proposals_length s)], s).
Proof. done. Qed.

Lemma transact_hasVoted a :
  transact sender (CallHasVoted a) s = (Ok [VBool (hasVoted_at a s)], s).
Proof. done. Qed.

Lemma transact_owner :
  transact sender CallOwner s = (Ok [VAddress (owner s)], s).
Proof. done. Qed.

Lemma transact_getWinner :
  transact sender CallGetWinner s =
    if proposals_length s =? 0 then (Ok [VString msg_no_proposals], s)
    else
      match proposals s !! N.to_nat (snd (winner_scan (proposals s) 0 (0, 0))) with
      | Some p => (Ok [VString (name p)], s)
      | None => (Err (Panic 50), s)
      end.
Proof.
  unfold transact, dispatch, getWinner, proposal_at.
  unfold bind, read, ret; simpl.
  destruct (proposals_length s =? 0); [done|]; simpl.
  by destruct (proposals s !! _).
Qed.

(** A call that fails leaves the storage as it was. *)
Lemma transact_rejected c e :
  fst (transact sender c s) = Err e -> snd (transact sender c s) = s.
Proof.
  unfold transact. by destruct (dispatch sender c s) as [[v|e'] s'].
Qed.

Lemma transact_view c : is_view c = true -> snd (transact sender c s) = s.
Proof.
  destruct c; try discriminate; intros _.
  - done.
  - rewrite transact_getProposal.
    destruct (_ <? _); [|done]. by destruct (proposals s !! _).
  - done.
  - done.
  - rewrite transact_getWinner.
    destruct (_ =? _); [done|]. by destruct (proposals s !! _).
Qed.

Lemma transact_effect c : Effect sender s c.
Proof.
  destruct c as [_name|i| | | | |];
    try (apply effect_none; [by apply transact_view|done]).
  - pose proof (transact_addProposal _name) as E.
    destruct (sender =? owner s) eqn:Ho;
      [|apply effect_none; by rewrite E].
    destruct (0 <? bytes_length _name) eqn:H0;
      [|apply effect_none; by rewrite E].
    destruct (bytes_length _name <? 100) eqn:H1;
      [|apply effect_none; by rewrite E].
    apply N.ltb_lt in H0, H1.
    apply (effect_add _ _ _ _name); [done|by apply N.eqb_eq|lia|done].
  - pose proof (transact_vote i) as E.
    destruct (i <? proposals_length s);
      [|apply effect_none; by rewrite E].
    destruct (hasVoted_at sender s) eqn:Hv;
      [apply effect_none; by rewrite E|].
    destruct (proposals s !! N.to_nat i) as [p|] eqn:Hp;
      [|apply effect_none; by rewrite E].
    destruct (voteCount p <? UINT_MAX) eqn:Hc;
      [|apply effect_none; by rewrite E].
    apply N.ltb_lt in Hc.
    apply (effect_vote _ _ _ i p); done.
Qed.
End Step.

(** ** The scan of [getWinner] *)

Lemma winner_scan_app l1 l2 i best :
  winner_scan (l1 ++ l2) i best =
  winner_scan l2 (i + N.of_nat (length l1)) (winner_scan l1 i best).
Proof.
  revert i best. induction l1 as [|p l1 IH]; intros i best; simpl.
  - by rewrite N.add_0_r.
  - rewrite IH. f_equal. lia.
Qed.

Lemma scan_inv_snoc pre x best :
  scan_inv pre best ->
  scan_inv (pre ++ [x])
    (if fst best <? voteCount x then (voteCount x, N.of_nat (length pre))
     else best).
Proof.
  unfold scan_inv, first_max.
  intros [[-> ->]|(p & (Hp & Hmax & Hlow) & Hv)]; right.
  - exists x; simpl. destruct (0 <? voteCount x) eqn:Hx; simpl.
    + repeat split; [|intros j q Hj; lia].
      intros [|[|j]] q Hq; simplify_eq/=. lia.
    + apply N.ltb_ge in Hx. repeat split; [|intros j q Hj; lia|lia].
      intros [|[|j]] q Hq; simplify_eq/=. lia.
  - destruct (fst best <? voteCount x) eqn:Hx; simpl.
    + apply N.ltb_lt in Hx. exists x. simpl. rewrite Nat2N.id. repeat split.
      * by rewrite lookup_app_r, Nat.sub_diag.
      * intros j q [[_ Hq]|[_ <-]]%lookup_snoc_Some; [|lia].
        apply Hmax in Hq. lia.
      * intros j q Hj Hq. rewrite lookup_app_l in Hq by done.
        apply Hmax in Hq. lia.
    + apply N.ltb_ge in Hx. exists p. repeat split; [| | |done].
      * rewrite lookup_app_l; [done|]. by eapply lookup_lt_Some.
      * intros j q [[_ Hq]|[_ <-]]%lookup_snoc_Some; [|lia].
        by apply Hmax in Hq.
      * intros j q Hj Hq. apply (Hlow j q Hj).
        apply lookup_lt_Some in Hp.
        rewrite lookup_app_l in Hq; [done|lia].
Qed.

Lemma winner_scan_inv ps : scan_inv ps (winner_scan ps 0 (0, 0)).
Proof.
  induction ps as [|x pre IH] using rev_ind.
  - by left.
  - rewrite winner_scan_app. simpl. by apply scan_inv_snoc.
Qed.

Lemma winner_scan_first_max ps :
  ps <> [] -> exists p, first_max ps (snd (winner_scan ps 0 (0, 0))) p.
Proof.
  intros Hne.
  destruct (winner_scan_inv ps) as [[? _]|(p & Hp & _)]; [done|eauto].
Qed.

(** ** Histories *)

Section Counting.
Variables (f : State -> N) (sel : N -> Call -> bool).
Hypothesis f_step : forall sender c s,
  f (snd (transact sender c s)) =
  f s + (if is_ok (fst (transact sender c s)) && sel sender c then 1 else 0).

(** A quantity that grows by one exactly at the accepted calls selected
    by [sel] counts them. *)
Lemma count_run tr : forall s,
  f (run tr s) = f s + N.of_nat (accepted sel tr s).
Proof.
  induction tr as [|[sender c] tr IH]; intros s; simpl.
  - lia.
  - rewrite IH, f_step.
    destruct (is_ok _ && sel sender c); lia.
Qed.
End Counting.

Lemma run_app tr1 tr2 : forall s, run (tr1 ++ tr2) s = run tr2 (run tr1 s).
Proof.
  induction tr1 as [|[sender c] tr1 IH]; intros s; simpl; [done|apply IH].
Qed.

(** Case analysis on the effect of one transaction; in the first case the
    call is either rejected or a view. *)
Ltac effect_cases sender s c :=
  destruct (transact_effect sender s c)
    as [Hs Hview | vname -> Ho Hn E | vi vp -> Hp Hv Hc E];
  [ rewrite Hs;
    destruct (is_ok (fst (transact sender c s))) eqn:Hok; simpl;
    [ specialize (Hview eq_refl); destruct c; try discriminate Hview; simpl
    | ]
  | rewrite E; simpl
  | rewrite E; simpl ].

Lemma length_step sender c s :
  proposals_length (snd (transact sender c s)) =
  proposals_length s +
  (if is_ok (fst (transact sender c s)) && is_addProposal sender c
   then 1 else 0).
Proof.
  effect_cases sender s c; try lia.
  - unfold proposals_length; simpl. rewrite length_app; simpl. lia.
  - unfold proposals_length; simpl. rewrite length_insert. lia.
Qed.

Lemma voteCount_step i sender c s :
  voteCount_at i (snd (transact sender c s)) =
  voteCount_at i s +
  (if is_ok (fst (transact sender c s)) && is_vote_for i sender c
   then 1 else 0).
Proof.
  effect_cases sender s c; try lia.
  - unfold voteCount_at; simpl.
    destruct (proposals s !! N.to_nat i) as [q|] eqn:Hq.
    + rewrite lookup_app_l by (by eapply lookup_lt_Some).
      rewrite Hq. simpl. lia.
    + apply lookup_ge_None in Hq.
      destruct (decide (N.to_nat i = length (proposals s))) as [Hi|Hi].
      * rewrite lookup_app_r, Hi, Nat.sub_diag by lia. simpl. lia.
      * rewrite (proj2 (lookup_ge_None _ _)); [simpl; lia|].
        rewrite length_app; simpl. lia.
  - unfold voteCount_at; simpl.
    destruct (vi =? i) eqn:Hji.
    + apply N.eqb_eq in Hji as ->.
      rewrite list_lookup_insert_eq by (by eapply lookup_lt_Some).
      rewrite Hp. simpl. lia.
    + apply N.eqb_neq in Hji.
      rewrite list_lookup_insert_ne by lia. lia.
Qed.

Lemma hasVoted_step a sender c s :
  voted_bit a (snd (transact sender c s)) =
  voted_bit a s +
  (if is_ok (fst (transact sender c s)) && is_vote_by a sender c
   then 1 else 0).
Proof.
  effect_cases sender s c; try lia.
  - unfold voted_bit, hasVoted_at; simpl. lia.
  - unfold voted_bit, hasVoted_at in *; simpl.
    destruct (sender =? a) eqn:Hsa.
    + apply N.eqb_eq in Hsa as ->.
      rewrite lookup_insert_eq. simpl.
      destruct (hasVoted s !! a) as [[]|]; simpl in *; done.
    + apply N.eqb_neq in Hsa.
      rewrite lookup_insert_ne by done. lia.
Qed.

Lemma owner_step sender c s : owner (snd (transact sender c s)) = owner s.
Proof.
  destruct (transact_effect sender s c) as [Hs _| ? _ _ _ E | ? ? _ _ _ _ E];
    [by rewrite Hs|by rewrite E|by rewrite E].
Qed.

Lemma names_step sender c s :
  Forall name_ok (proposals s) ->
  Forall name_ok (proposals (snd (transact sender c s))).
Proof.
  intros Hall.
  destruct (transact_effect sender s c)
    as [Hs _| _name _ _ Hn E | i p _ Hp _ _ E].
  - by rewrite Hs.
  - rewrite E; simpl. apply Forall_app; split; [done|].
    by apply Forall_singleton.
  - rewrite E; simpl. apply Forall_insert; [done|].
    apply (Forall_lookup_1 _ _ _ _ Hall Hp).
Qed.

(** ** Construction *)

Lemma deployed_eq sender :
  deployed sender =
    {| owner := sender;
       proposals := seed_proposals;
       hasVoted := ∅;
       events :=
         [ ProposalAdded 0 "Proposal A: Fund Project Alpha";
           ProposalAdded 1 "Proposal B: Support Initiative Beta";
           ProposalAdded 2 "Proposal C: Allocate Resources Gamma" ] |}.
Proof. reflexivity. Qed.

Lemma reachable_run tr : forall s, reachable s -> reachable (run tr s).
Proof.
  induction tr as [|[sender c] tr IH]; intros s Hs; simpl; [done|].
  apply IH. by constructor.
Qed.

Lemma reachable_names s : reachable s -> Forall name_ok (proposals s).
Proof.
  induction 1 as [sender|sender c s _ IH].
  - rewrite deployed_eq; simpl. unfold name_ok, bytes_length.
    repeat constructor; simpl; lia.
  - by apply names_step.
Qed.

(** ** Worked examples *)

(** An identity votes for index 1, then is refused a second vote. *)
Example vote_then_already_voted :
  fst (transact 8 (CallGetProposal 1) (run [(8, CallVote 1)] (deployed 7))) =
    Ok [VString "Proposal B: Support Initiative Beta"; VUint 1] /\
  hasVoted_at 8 (run [(8, CallVote 1)] (deployed 7)) = true /\
  fst (transact 8 (CallVote 0) (run [(8, CallVote 1)] (deployed 7))) =
    Err (Revert "Voting: You have already voted.").
Proof. repeat split. Qed.

(** Two votes for index 0 against one for index 1. *)
Example winner_two_against_one :
  fst (transact 1 CallGetWinner
         (run [(8, CallVote 0); (9, CallVote 1); (10, CallVote 0)] (deployed 7))) =
    Ok [VString "Proposal A: Fund Project Alpha"].
Proof. reflexivity. Qed.

(** A counter at [type(uint256).max] makes [vote] panic after the body
    has already written [hasVoted]; the transaction restores the storage. *)
Example panic_is_rolled_back :
  let s := {| owner := 7;
              proposals := [{| name := "Full"; voteCount := UINT_MAX |}];
              hasVoted := ∅; events := [] |} in
  fst (dispatch 8 (CallVote 0) s) = Err (Panic 17) /\
  hasVoted_at 8 (snd (dispatch 8 (CallVote 0) s)) = true /\
  transact 8 (CallVote 0) s = (Err (Panic 17), s).
Proof. repeat split. Qed.

(** ** The ledger's properties *)

(** C1: along every history of a deployed ledger, at most one [vote] call
    of an identity [a] is accepted; [hasVoted(a)] is true exactly when one
    was accepted, and false when none was. *)
Theorem one_vote_per_identity (deployer a x : N) (tr : list Tx) :
  (accepted (is_vote_by a) tr (deployed deployer) <= 1)%nat /\
  (hasVoted_at a (run tr (deployed deployer)) = true <->
   accepted (is_vote_by a) tr (deployed deployer) = 1%nat) /\
  (accepted (is_vote_by a) tr (deployed deployer) = 0%nat ->
   hasVoted_at a (run tr (deployed deployer)) = false) /\
  transact x (CallHasVoted a) (run tr (deployed deployer)) =
    (Ok [VBool (hasVoted_at a (run tr (deployed deployer)))],
     run tr (deployed deployer)).
Proof.
  pose proof (count_run (voted_bit a) (is_vote_by a) (hasVoted_step a)
                tr (deployed deployer)) as H.
  change (voted_bit a (deployed deployer)) with 0 in H.
  unfold voted_bit in H.
  repeat split; try apply transact_hasVoted;
    destruct (hasVoted_at a (run tr (deployed deployer))); try done; lia.
Qed.

Lemma one_vote_per_identity_witness :
  accepted (is_vote_by 8) [(8, CallVote 1); (9, CallVote 2); (8, CallVote 2)]
    (deployed 7) = 1%nat /\
  hasVoted_at 8
    (run [(8, CallVote 1); (9, CallVote 2); (8, CallVote 2)] (deployed 7)) = true.
Proof.
  pose proof (one_vote_per_identity 7 8 0
                [(8, CallVote 1); (9, CallVote 2); (8, CallVote 2)])
    as (_ & H & _).
  split; [reflexivity|]. apply H. reflexivity.
Defined.

(** C2: on a ledger with at least one proposal, [getWinner] returns the
    name of the proposal with the lowest index among those holding the
    maximum vote count; when every vote count is 0 that is index 0. *)
Theorem getWinner_first_max (s : State) :
  0 < proposals_length s ->
  exists w p,
    first_max (proposals s) w p /\
    getWinner s = (Ok (name p), s) /\
    ((forall q, q ∈ proposals s -> voteCount q = 0) -> w = 0).
Proof.
  intros Hlen.
  assert (proposals s <> []) as Hne.
  { intros Heq. unfold proposals_length in Hlen.
    rewrite Heq in Hlen. simpl in Hlen. lia. }
  destruct (winner_scan_first_max _ Hne) as [p Hp].
  exists (snd (winner_scan (proposals s) 0 (0, 0))), p.
  split; [done|split].
  - unfold getWinner, bind, read, ret, proposal_at; simpl.
    destruct (proposals_length s =? 0) eqn:H0; [apply N.eqb_eq in H0; lia|].
    simpl. by rewrite (proj1 Hp).
  - intros Hzero. destruct Hp as (Hw & _ & Hlow).
    destruct (proposals s) as [|p0 ps] eqn:Hps; [done|].
    destruct (N.to_nat (snd (winner_scan (p0 :: ps) 0 (0, 0))))
      as [|n] eqn:Hn; [lia|].
    specialize (Hlow 0%nat p0 ltac:(lia) eq_refl).
    assert (voteCount p = 0) as Hp0.
    { apply Hzero. by eapply list_elem_of_lookup_2. }
    lia.
Qed.

Lemma getWinner_first_max_witness :
  0 < proposals_length (run [(8, CallVote 2); (9, CallVote 1)] (deployed 7)) /\
  exists w p,
    first_max
      (proposals (run [(8, CallVote 2); (9, CallVote 1)] (deployed 7))) w p /\
    getWinner (run [(8, CallVote 2); (9, CallVote 1)] (deployed 7)) =
      (Ok (name p), run [(8, CallVote 2); (9, CallVote 1)] (deployed 7)) /\
    ((forall q,
        q ∈ proposals (run [(8, CallVote 2); (9, CallVote 1)] (deployed 7)) ->
        voteCount q = 0) -> w = 0).
Proof.
  split; [reflexivity|].
  apply (getWinner_first_max
           (run [(8, CallVote 2); (9, CallVote 1)] (deployed 7))).
  reflexivity.
Defined.

(** C3: after any history of a deployed ledger, the vote count that
    [getProposal(i)] returns is the number of accepted [vote(i)] calls of
    the history (a call for an index not yet created is never accepted). *)
Theorem voteCount_counts_accepted_votes (deployer : N) (tr : list Tx) (i : N) :
  i < proposals_length (run tr (deployed deployer)) ->
  exists nm,
    getProposal i (run tr (deployed deployer)) =
      (Ok (nm, N.of_nat (accepted (is_vote_for i) tr (deployed deployer))),
       run tr (deployed deployer)).
Proof.
  intros Hi.
  pose proof (count_run (voteCount_at i) (is_vote_for i) (voteCount_step i)
                tr (deployed deployer)) as H.
  assert (voteCount_at i (deployed deployer) = 0) as H0.
  { rewrite deployed_eq. unfold voteCount_at; simpl.
    destruct (N.to_nat i) as [|[|[|[|n]]]]; reflexivity. }
  rewrite H0 in H. simpl in H.
  unfold getProposal, bind, read, require, proposal_at, ret; simpl.
  apply N.ltb_lt in Hi as Hi'. rewrite Hi'.
  unfold voteCount_at in H.
  destruct (proposals (run tr (deployed deployer)) !! N.to_nat i)
    as [p|] eqn:Hp.
  - exists (name p). simpl in H. by rewrite H.
  - apply lookup_ge_None in Hp. unfold proposals_length in Hi. lia.
Qed.

Lemma voteCount_counts_accepted_votes_witness :
  2 < proposals_length
        (run [(8, CallVote 2); (9, CallVote 2); (8, CallVote 2)] (deployed 7)) /\
  exists nm,
    getProposal 2
      (run [(8, CallVote 2); (9, CallVote 2); (8, CallVote 2)] (deployed 7)) =
    (Ok (nm, N.of_nat
               (accepted (is_vote_for 2)
                  [(8, CallVote 2); (9, CallVote 2); (8, CallVote 2)]
                  (deployed 7))),
     run [(8, CallVote 2); (9, CallVote 2); (8, CallVote 2)] (deployed 7)).
Proof.
  split; [reflexivity|].
  apply (voteCount_counts_accepted_votes 7
           [(8, CallVote 2); (9, CallVote 2); (8, CallVote 2)] 2).
  reflexivity.
Defined.

(** C4: with no proposals stored, [getWinner] returns the text
    "No proposals available" as an ordinary result. *)
Theorem getWinner_no_proposals (sender : N) (s : State) :
  proposals s = [] ->
  getWinner s = (Ok "No proposals available", s) /\
  transact sender CallGetWinner s = (Ok [VString "No proposals available"], s).
Proof.
  intros Hnil. rewrite transact_getWinner.
  unfold getWinner, bind, read, ret, proposals_length. by rewrite Hnil.
Qed.

Lemma getWinner_no_proposals_witness :
  proposals storage0 = [] /\
  getWinner storage0 = (Ok "No proposals available", storage0) /\
  transact 1 CallGetWinner storage0 =
    (Ok [VString "No proposals available"], storage0).
Proof.
  split; [reflexivity|]. apply (getWinner_no_proposals 1 storage0). reflexivity.
Defined.

(** C5: when an [addProposal] call is accepted after any history of a
    deployed ledger, [getProposalsCount] equals the three constructor
    seeds plus the accepted [addProposal] calls so far (this one
    included), the count grew by one, [getProposal(count - 1)] returns the
    new name with vote count 0, and the proposal was appended at the index
    equal to the count before the call. *)
Theorem addProposal_appends_at_count
    (deployer : N) (tr : list Tx) (sender : N) (_name : string)
    (r : list Value) (s' : State) :
  transact sender (CallAddProposal _name) (run tr (deployed deployer)) =
    (Ok r, s') ->
  getProposalsCount s' =
    (Ok (3 + N.of_nat (accepted is_addProposal
                         (tr ++ [(sender, CallAddProposal _name)])
                         (deployed deployer))), s') /\
  proposals_length s' = proposals_length (run tr (deployed deployer)) + 1 /\
  getProposal (proposals_length s' - 1) s' = (Ok (_name, 0), s') /\
  proposals s' =
    (proposals (run tr (deployed deployer))
       ++ [{| name := _name; voteCount := 0 |}])%list.
Proof.
  intros Hacc.
  pose proof (count_run proposals_length is_addProposal length_step
                (tr ++ [(sender, CallAddProposal _name)])
                (deployed deployer)) as H.
  rewrite run_app in H. simpl in H. rewrite Hacc in H. simpl in H.
  change (proposals_length (deployed deployer)) with 3 in H.
  set (s := run tr (deployed deployer)) in *.
  rewrite transact_addProposal in Hacc.
  destruct (sender =? owner s); [|done].
  destruct (0 <? bytes_length _name); [|done].
  destruct (bytes_length _name <? 100); [|done].
  injection Hacc as <- <-.
  assert (proposals_length (after_addProposal _name s) =
          proposals_length s + 1) as Hlen.
  { unfold proposals_length; simpl. rewrite length_app; simpl. lia. }
  split; [|split; [|split]].
  - unfold getProposalsCount, read. by rewrite H.
  - done.
  - unfold getProposal, bind, read, require, proposal_at, ret.
    rewrite Hlen.
    replace (proposals_length s + 1 - 1) with (proposals_length s) by lia.
    replace (proposals_length s <? proposals_length s + 1) with true
      by (symmetry; apply N.ltb_lt; lia).
    simpl. unfold proposals_length. rewrite Nat2N.id.
    by rewrite lookup_app_r, Nat.sub_diag.
  - done.
Qed.

Lemma addProposal_appends_at_count_witness :
  transact 7 (CallAddProposal "Delta") (run [(8, CallVote 2)] (deployed 7)) =
    (Ok [], after_addProposal "Delta" (run [(8, CallVote 2)] (deployed 7))) /\
  getProposalsCount
    (after_addProposal "Delta" (run [(8, CallVote 2)] (deployed 7))) =
    (Ok 4, after_addProposal "Delta" (run [(8, CallVote 2)] (deployed 7))) /\
  getProposal 3
    (after_addProposal "Delta" (run [(8, CallVote 2)] (deployed 7))) =
    (Ok ("Delta", 0),
     after_addProposal "Delta" (run [(8, CallVote 2)] (deployed 7))).
Proof.
  destruct (addProposal_appends_at_count 7 [(8, CallVote 2)] 7 "Delta" []
              (after_addProposal "Delta" (run [(8, CallVote 2)] (deployed 7)))
              eq_refl) as (H1 & _ & H2 & _).
  split; [reflexivity|]. split; [exact H1|exact H2].
Defined.

(** C6: [_addProposalInternal], and [addProposal] called by the owner,
    accept a name exactly when its byte length is between 1 and 99; an
    empty name and a name of 100 bytes or more are rejected with the two
    InvalidProposal messages; every proposal stored in a reachable ledger
    has a name of 1 to 99 bytes. *)
Theorem addProposal_name_length (s : State) (_name : string) :
  reachable s ->
  (is_ok (fst (_addProposalInternal _name s)) = true <->
   1 <= bytes_length _name <= 99) /\
  (is_ok (fst (transact (owner s) (CallAddProposal _name) s)) = true <->
   1 <= bytes_length _name <= 99) /\
  (bytes_length _name = 0 ->
   transact (owner s) (CallAddProposal _name) s =
     (Err (Revert "Proposal name cannot be empty."), s)) /\
  (100 <= bytes_length _name ->
   transact (owner s) (CallAddProposal _name) s =
     (Err (Revert "Proposal name is too long."), s)) /\
  error_kind (Revert "Proposal name cannot be empty.") = Some InvalidProposal /\
  error_kind (Revert "Proposal name is too long.") = Some InvalidProposal /\
  Forall name_ok (proposals s).
Proof.
  intros Hreach.
  rewrite transact_addProposal, N.eqb_refl.
  unfold _addProposalInternal, bind, require, read, write, emit.
  destruct (0 <? bytes_length _name) eqn:H0;
    [apply N.ltb_lt in H0|apply N.ltb_ge in H0];
    (destruct (bytes_length _name <? 100) eqn:H1;
      [apply N.ltb_lt in H1|apply N.ltb_ge in H1]); simpl;
    repeat split; try done; try lia; try (by apply reachable_names).
Qed.

Lemma addProposal_name_length_witness :
  reachable (deployed 7) /\
  is_ok (fst (transact 7 (CallAddProposal "Delta") (deployed 7))) = true /\
  transact 7 (CallAddProposal "") (deployed 7) =
    (Err (Revert "Proposal name cannot be empty."), deployed 7) /\
  Forall name_ok (proposals (deployed 7)).
Proof.
  destruct (addProposal_name_length (deployed 7) "Delta" (reachable_deployed 7))
    as (_ & Hok & _).
  destruct (addProposal_name_length (deployed 7) "" (reachable_deployed 7))
    as (_ & _ & Hempty & _ & _ & _ & Hall).
  split; [constructor|].
  split; [apply Hok; unfold bytes_length; simpl; lia|].
  split; [apply Hempty; reflexivity|exact Hall].
Defined.

(** C7: [addProposal] called by anyone but the owner fails with the
    Unauthorized message; every rejected call leaves owner, proposals,
    [hasVoted] and the event log as they were; and a call rejected with
    one of the four error kinds has not written anything before failing. *)
Theorem rejected_call_changes_nothing (s : State) :
  (forall sender _name,
     sender <> owner s ->
     transact sender (CallAddProposal _name) s =
       (Err (Revert "Only owner can call this function."), s)) /\
  error_kind (Revert "Only owner can call this function.") = Some Unauthorized /\
  (forall sender c e,
     fst (transact sender c s) = Err e ->
     snd (transact sender c s) = s) /\
  (forall sender c e,
     fst (dispatch sender c s) = Err e ->
     is_Some (error_kind e) ->
     snd (dispatch sender c s) = s).
Proof.
  split; [|split; [done|split]].
  - intros sender _name Hne. rewrite transact_addProposal.
    by apply N.eqb_neq in Hne as ->.
  - intros sender c e. apply transact_rejected.
  - intros sender c e.
    destruct c as [_name|i| |i| | |]; simpl;
      unfold addProposal, onlyOwner, _addProposalInternal, vote,
        incr_voteCount, getProposalsCount, getProposal, getWinner,
        proposal_at, bind, read, require, write, emit, ret, panic; simpl.
    + destruct (sender =? owner s); [|done].
      destruct (0 <? bytes_length _name); [|done].
      by destruct (bytes_length _name <? 100).
    + destruct (i <? proposals_length s); [|done].
      destruct (hasVoted_at sender s); [done|]; simpl.
      destruct (proposals s !! N.to_nat i) as [p|]; simpl.
      * destruct (voteCount p <? UINT_MAX); simpl; [done|].
        intros [= <-] [k Hk]. discriminate Hk.
      * intros [= <-] [k Hk]. discriminate Hk.
    + done.
    + destruct (i <? proposals_length s); [|done].
      by destruct (proposals s !! N.to_nat i).
    + done.
    + done.
    + destruct (proposals_length s =? 0); [done|]; simpl.
      by destruct (proposals s !! _).
Qed.

Lemma rejected_call_changes_nothing_witness :
  8 <> owner (deployed 7) /\
  transact 8 (CallAddProposal "Gamma") (deployed 7) =
    (Err (Revert "Only owner can call this function."), deployed 7) /\
  fst (transact 8 (CallVote 3) (deployed 7)) =
    Err (Revert "Voting: Invalid proposal index.") /\
  snd (transact 8 (CallVote 3) (deployed 7)) = deployed 7 /\
  snd (dispatch 8 (CallVote 3) (deployed 7)) = deployed 7.
Proof.
  destruct (rejected_call_changes_nothing (deployed 7)) as (H1 & _ & H2 & H3).
  split; [simpl; lia|].
  split; [apply H1; simpl; lia|].
  split; [reflexivity|].
  split; [apply (H2 8 (CallVote 3) (Revert "Voting: Invalid proposal index."));
          reflexivity|].
  apply (H3 8 (CallVote 3) (Revert "Voting: Invalid proposal index."));
    [reflexivity|by eexists].
Defined.

(** C8: for every index [i] at or beyond the number of proposals, and so
    for [i] equal to that number, [vote(i)] and [getProposal(i)] fail with
    their InvalidIndex messages, whoever calls and whatever the storage
    (a [uint] index cannot be negative). *)
Theorem index_out_of_range (sender : N) (s : State) (i : N) :
  proposals_length s <= i ->
  transact sender (CallVote i) s =
    (Err (Revert "Voting: Invalid proposal index."), s) /\
  transact sender (CallGetProposal i) s =
    (Err (Revert "GetProposal: Invalid proposal index."), s) /\
  error_kind (Revert "Voting: Invalid proposal index.") = Some InvalidIndex /\
  error_kind (Revert "GetProposal: Invalid proposal index.") =
    Some InvalidIndex.
Proof.
  intros Hi. rewrite transact_vote, transact_getProposal.
  by apply N.ltb_ge in Hi as ->.
Qed.

Lemma index_out_of_range_witness :
  proposals_length (deployed 7) <= 3 /\
  transact 8 (CallVote 3) (deployed 7) =
    (Err (Revert "Voting: Invalid proposal index."), deployed 7) /\
  transact 8 (CallGetProposal 3) (deployed 7) =
    (Err (Revert "GetProposal: Invalid proposal index."), deployed 7).
Proof.
  assert (proposals_length (deployed 7) <= 3) as H by (vm_compute; discriminate).
  destruct (index_out_of_range 8 (deployed 7) 3 H) as (H1 & H2 & _).
  split; [exact H|]. split; [exact H1|exact H2].
Defined.

(** C9, as stated, fails: the owner's accepted [addProposal("Gamma")] on a
    fresh ledger is assigned index 3 and returns no value at all. *)
Lemma addProposal_returns_no_index :
  proposals_length (deployed 7) = 3 /\
  fst (transact 7 (CallAddProposal "Gamma") (deployed 7)) = Ok [] /\
  fst (transact 7 (CallAddProposal "Gamma") (deployed 7)) <> Ok [VUint 3].
Proof. split; [reflexivity|split; [reflexivity|discriminate]]. Qed.

(** C9, amended: an accepted [addProposal] call returns no value; the
    index assigned to the new proposal, the count before the call, is
    reported in the [ProposalAdded] event the call emits, and the
    proposal is stored at that index. *)
Theorem addProposal_reports_index_by_event
    (sender : N) (_name : string) (s : State) (r : list Value) (s' : State) :
  transact sender (CallAddProposal _name) s = (Ok r, s') ->
  r = [] /\
  events s' = (events s ++ [ProposalAdded (proposals_length s) _name])%list /\
  proposals s' !! N.to_nat (proposals_length s) =
    Some {| name := _name; voteCount := 0 |}.
Proof.
  rewrite transact_addProposal.
  destruct (sender =? owner s); [|done].
  destruct (0 <? bytes_length _name); [|done].
  destruct (bytes_length _name <? 100); [|done].
  intros [= <- <-]. repeat split; simpl.
  unfold proposals_length. rewrite Nat2N.id.
  by rewrite lookup_app_r, Nat.sub_diag.
Qed.

Lemma addProposal_reports_index_by_event_witness :
  transact 7 (CallAddProposal "Gamma") (deployed 7) =
    (Ok [], after_addProposal "Gamma" (deployed 7)) /\
  events (after_addProposal "Gamma" (deployed 7)) =
    (events (deployed 7) ++ [ProposalAdded 3 "Gamma"])%list.
Proof.
  split; [reflexivity|].
  apply (addProposal_reports_index_by_event 7 "Gamma" (deployed 7) []
           (after_addProposal "Gamma" (deployed 7))).
  reflexivity.
Defined.

(** C10: construction by [sender] succeeds, whoever [sender] is, with
    [owner] equal to [sender] and exactly the three seed proposals
    A, B, C in order, each with vote count 0, so [getProposalsCount]
    returns 3; the creator is the constructor's only input. *)
Theorem constructor_seeds (sender x : N) :
  deploy sender = Ok (deployed sender) /\
  owner (deployed sender) = sender /\
  proposals (deployed sender) =
    [ {| name := "Proposal A: Fund Project Alpha"; voteCount := 0 |};
      {| name := "Proposal B: Support Initiative Beta"; voteCount := 0 |};
      {| name := "Proposal C: Allocate Resources Gamma"; voteCount := 0 |} ] /\
  hasVoted (deployed sender) = ∅ /\
  transact x CallGetProposalsCount (deployed sender) =
    (Ok [VUint 3], deployed sender) /\
  transact x CallOwner (deployed sender) =
    (Ok [VAddress sender], deployed sender).
Proof. repeat split. Qed.

(** * Further properties of the contract *)

(** ** Invariants along histories *)

Lemma run_invariant (P : State -> Prop) :
  (forall sender c s, P s -> P (snd (transact sender c s))) ->
  forall tr s, P s -> P (run tr s).
Proof.
  intros Hstep tr.
  induction tr as [|[sender c] tr IH]; intros s Hs; simpl; [done|].
  apply IH, Hstep, Hs.
Qed.

Lemma owner_run tr s : owner (run tr s) = owner s.
Proof.
  revert s. induction tr as [|[sender c] tr IH]; intros s; simpl; [done|].
  by rewrite IH, owner_step.
Qed.

Lemma names_prefix_step sender c s :
  names s `prefix_of` names (snd (transact sender c s)).
Proof.
  unfold names.
  destruct (transact_effect sender s c)
    as [Hs _| _name _ _ _ E | i p _ Hp _ _ E].
  - by rewrite Hs.
  - rewrite E; simpl. rewrite fmap_app. by apply prefix_app_r.
  - rewrite E; simpl. rewrite list_fmap_insert; simpl.
    rewrite list_insert_id; [done|]. by rewrite list_lookup_fmap, Hp.
Qed.

Lemma names_prefix_run tr : forall s, names s `prefix_of` names (run tr s).
Proof.
  induction tr as [|[sender c] tr IH]; intros s; simpl; [done|].
  etrans; [apply names_prefix_step|apply IH].
Qed.

Lemma getProposal_lookup i s p :
  proposals s !! N.to_nat i = Some p ->
  getProposal i s = (Ok (name p, voteCount p), s).
Proof.
  intros Hp. unfold getProposal, bind, read, require, proposal_at, ret.
  replace (i <? proposals_length s) with true.
  - simpl. by rewrite Hp.
  - symmetry. apply N.ltb_lt. apply lookup_lt_Some in Hp.
    unfold proposals_length. lia.
Qed.

Lemma getProposal_inv i s nm v s' :
  getProposal i s = (Ok (nm, v), s') ->
  exists p,
    proposals s !! N.to_nat i = Some p /\ name p = nm /\ voteCount p = v.
Proof.
  unfold getProposal, bind, read, require, proposal_at, ret.
  destruct (i <? proposals_length s); [|done]; simpl.
  destruct (proposals s !! N.to_nat i) as [p|]; [|done].
  intros [= <- <- _]. eauto.
Qed.

Lemma hasVoted_monotone_step a sender c s :
  hasVoted_at a s = true -> hasVoted_at a (snd (transact sender c s)) = true.
Proof.
  intros Hv. pose proof (hasVoted_step a sender c s) as H.
  unfold voted_bit in H. rewrite Hv in H.
  destruct (hasVoted_at a (snd (transact sender c s))); [done|].
  destruct (is_ok _ && _); lia.
Qed.

Lemma hasVoted_monotone_run a tr s :
  hasVoted_at a s = true -> hasVoted_at a (run tr s) = true.
Proof.
  apply (run_invariant (fun s => hasVoted_at a s = true)).
  intros sender c s'. apply hasVoted_monotone_step.
Qed.

(** ** Totals *)

Lemma total_votes_insert ps i p :
  ps !! i = Some p ->
  foldr (fun p acc => voteCount p + acc) 0
    (<[i := {| name := name p; voteCount := voteCount p + 1 |}]> ps) =
  foldr (fun p acc => voteCount p + acc) 0 ps + 1.
Proof.
  revert i. induction ps as [|q ps IH]; intros [|i] Hp; simplify_eq/=.
  - lia.
  - rewrite (IH i Hp). lia.
Qed.

Lemma total_votes_lookup ps i (p : Proposal) :
  ps !! i = Some p ->
  voteCount p <= foldr (fun p acc => voteCount p + acc) 0 ps.
Proof.
  revert i. induction ps as [|q ps IH]; intros [|i] Hp; simplify_eq/=.
  - lia.
  - specialize (IH i Hp). lia.
Qed.

Lemma total_votes_step sender c s :
  total_votes (snd (transact sender c s)) =
  total_votes s +
  (if is_ok (fst (transact sender c s)) && is_vote sender c then 1 else 0).
Proof.
  destruct (transact_effect sender s c)
    as [Hs Hview| _name -> _ _ E | i p -> Hp _ _ E].
  - rewrite Hs. destruct (is_ok _) eqn:Hok; simpl; [|lia].
    specialize (Hview eq_refl).
    destruct c; try discriminate Hview; simpl; lia.
  - rewrite E; simpl. unfold total_votes; simpl. rewrite foldr_app; simpl.
    rewrite !N.add_0_r. done.
  - rewrite E; simpl. unfold total_votes; simpl.
    by rewrite (total_votes_insert _ _ _ Hp).
Qed.

Lemma hasVoted_at_false_None a s :
  map_Forall (fun _ b => b = true) (hasVoted s) ->
  hasVoted_at a s = false -> hasVoted s !! a = None.
Proof.
  intros Hall Hv. unfold hasVoted_at in Hv.
  destruct (hasVoted s !! a) as [b|] eqn:Hb; [|done].
  apply Hall in Hb. simpl in Hv. congruence.
Qed.

Lemma votes_balanced_step sender c s :
  votes_balanced s -> votes_balanced (snd (transact sender c s)).
Proof.
  intros [Hall Htot].
  destruct (transact_effect sender s c)
    as [Hs _| _name _ _ _ E | i p _ Hp Hv _ E].
  - by rewrite Hs.
  - rewrite E; split; simpl; [done|].
    unfold total_votes in *; simpl. rewrite foldr_app; simpl.
    by rewrite N.add_0_r.
  - rewrite E; split; simpl.
    + by apply map_Forall_insert_2.
    + unfold total_votes in *; simpl.
      rewrite (total_votes_insert _ _ _ Hp), Htot.
      rewrite map_size_insert_None by (by apply hasVoted_at_false_None). lia.
Qed.

Lemma votes_balanced_deployed deployer : votes_balanced (deployed deployer).
Proof. split; [apply map_Forall_empty|reflexivity]. Qed.

(** A set of numbers below [n] has at most [n] elements. *)
Lemma size_below (n : N) : forall X : gset N,
  (forall x, x ∈ X -> x < n) -> (size X <= N.to_nat n)%nat.
Proof.
  induction n as [|n IH] using N.peano_ind; intros X HX.
  - assert (X = ∅) as ->; [|by rewrite size_empty].
    apply set_eq. intros x. split; [|by intros ?%not_elem_of_empty].
    intros Hx%HX. lia.
  - transitivity (size ({[n]} ∪ X ∖ {[n]})).
    + apply subseteq_size. intros x Hx. apply elem_of_union.
      destruct (decide (x = n)) as [->|Hne].
      * left. by apply elem_of_singleton.
      * right. apply elem_of_difference. split; [done|].
        by apply not_elem_of_singleton.
    + rewrite size_union, size_singleton.
      * assert (size (X ∖ {[n]}) <= N.to_nat n)%nat; [|lia].
        apply IH. intros x [Hx Hn]%elem_of_difference.
        apply HX in Hx. apply not_elem_of_singleton in Hn. lia.
      * intros x ->%elem_of_singleton [_ Hn]%elem_of_difference.
        by apply Hn, elem_of_singleton.
Qed.

Lemma voters_in_range_step sender c s :
  sender < ADDRESS_BOUND ->
  voters_in_range s -> voters_in_range (snd (transact sender c s)).
Proof.
  intros Hsender Hall.
  destruct (transact_effect sender s c)
    as [Hs _| _name _ _ _ E | i p _ Hp Hv _ E].
  - by rewrite Hs.
  - by rewrite E.
  - rewrite E. unfold voters_in_range; simpl. by apply map_Forall_insert_2.
Qed.

Lemma bounded_run tr : forall s,
  senders_in_range tr ->
  votes_balanced s /\ voters_in_range s ->
  votes_balanced (run tr s) /\ voters_in_range (run tr s).
Proof.
  induction tr as [|[sender c] tr IH]; intros s Htr [Hb Hr]; simpl; [done|].
  apply Forall_cons in Htr as [Hsender Htr].
  apply IH; [done|]. split; [by apply votes_balanced_step|].
  by apply voters_in_range_step.
Qed.

Lemma bounded_deployed deployer tr :
  senders_in_range tr ->
  votes_balanced (run tr (deployed deployer)) /\
  voters_in_range (run tr (deployed deployer)).
Proof.
  intros Htr. apply bounded_run; [done|]. split.
  - apply votes_balanced_deployed.
  - apply map_Forall_empty.
Qed.

Lemma voteCount_bounded s i p :
  votes_balanced s -> voters_in_range s ->
  proposals s !! i = Some p -> voteCount p <= ADDRESS_BOUND.
Proof.
  intros [_ Htot] Hr Hp.
  apply total_votes_lookup in Hp. fold (total_votes s) in Hp.
  assert (size (hasVoted s) <= N.to_nat ADDRESS_BOUND)%nat.
  { rewrite <- size_dom. apply size_below. intros a [b Hb]%elem_of_dom.
    by apply Hr in Hb. }
  lia.
Qed.

Lemma voteCount_below_max s i p :
  votes_balanced s -> voters_in_range s ->
  proposals s !! i = Some p -> (voteCount p <? UINT_MAX) = true.
Proof.
  intros Hb Hr Hp. apply N.ltb_lt.
  eapply N.le_lt_trans; [by eapply voteCount_bounded|]. reflexivity.
Qed.

(** ** The event log *)

Lemma expected_added_insert s i p q :
  proposals s !! i = Some p -> name q = name p ->
  imap (fun i p => (N.of_nat i, name p)) (<[i := q]> (proposals s)) =
  expected_added s.
Proof.
  intros Hp Hq. unfold expected_added. apply list_eq. intros j.
  rewrite !list_lookup_imap.
  destruct (decide (i = j)) as [<-|Hne].
  - rewrite list_lookup_insert_eq by (by eapply lookup_lt_Some).
    rewrite Hp. simpl. by rewrite Hq.
  - by rewrite list_lookup_insert_ne.
Qed.

Lemma added_log_step sender c s :
  added_log (events s) = expected_added s ->
  added_log (events (snd (transact sender c s))) =
  expected_added (snd (transact sender c s)).
Proof.
  intros Hinv.
  destruct (transact_effect sender s c)
    as [Hs _| _name _ _ _ E | i p _ Hp _ _ E].
  - by rewrite Hs.
  - rewrite E; simpl. unfold added_log, expected_added in *; simpl.
    rewrite omap_app, imap_app, Hinv; simpl.
    unfold proposals_length. by rewrite Nat.add_0_r.
  - rewrite E; simpl. unfold added_log in *; simpl.
    rewrite omap_app; simpl. rewrite app_nil_r, Hinv.
    symmetry. unfold expected_added at 1; simpl.
    by apply (expected_added_insert s _ p).
Qed.

Lemma voted_log_step sender c s :
  voted_log_matches s -> voted_log_matches (snd (transact sender c s)).
Proof.
  intros (Hnd & Hmem & Hcnt).
  destruct (transact_effect sender s c)
    as [Hs _| _name _ _ _ E | i p _ Hp Hv _ E].
  - by rewrite Hs.
  - rewrite E. unfold voted_log_matches, votes_logged_for, voted_log in *; simpl.
    rewrite omap_app; simpl. rewrite app_nil_r.
    split; [done|split; [done|]].
    intros j. rewrite Hcnt. unfold voteCount_at; simpl.
    destruct (proposals s !! N.to_nat j) as [q|] eqn:Hq.
    + by rewrite (lookup_app_l_Some _ _ _ _ Hq).
    + apply lookup_ge_None in Hq.
      destruct (decide (N.to_nat j = length (proposals s))) as [Hj|Hj].
      * by rewrite lookup_app_r, Hj, Nat.sub_diag by lia.
      * rewrite (proj2 (lookup_ge_None _ _)); [done|].
        rewrite length_app; simpl. lia.
  - rewrite E. unfold voted_log_matches, votes_logged_for, voted_log in *; simpl.
    rewrite omap_app; simpl. rewrite fmap_app; simpl.
    split; [|split].
    + apply NoDup_app. split; [done|]. split; [|apply NoDup_singleton].
      intros a Ha ->%list_elem_of_singleton. apply Hmem in Ha. congruence.
    + intros a. rewrite elem_of_app, list_elem_of_singleton, Hmem.
      unfold hasVoted_at; simpl.
      destruct (decide (sender = a)) as [->|Hne].
      * rewrite lookup_insert_eq. simpl. split; [done|by right].
      * rewrite lookup_insert_ne by done.
        split; [intros [H|H]; [done|congruence]|by left].
    + intros j. rewrite filter_app, length_app, Nat2N.inj_add, Hcnt.
      unfold voteCount_at; simpl.
      destruct (decide (i = j)) as [<-|Hne].
      * rewrite list_lookup_insert_eq by (by eapply lookup_lt_Some).
        rewrite Hp; simpl. rewrite filter_cons_True by done. simpl. lia.
      * rewrite list_lookup_insert_ne by lia.
        rewrite filter_cons_False by done. simpl. lia.
Qed.

Lemma voted_log_deployed deployer : voted_log_matches (deployed deployer).
Proof.
  split; [apply NoDup_nil_2|split].
  - intros a. split; [by intros ?%elem_of_nil|done].
  - intros i. unfold voteCount_at. rewrite deployed_eq; simpl.
    destruct (N.to_nat i) as [|[|[|[|n]]]]; reflexivity.
Qed.

(** ** The winner *)

Lemma first_max_unique ps w p w' p' :
  first_max ps w p -> first_max ps w' p' -> N.to_nat w = N.to_nat w'.
Proof.
  intros (Hp & Hmax & Hlow) (Hp' & Hmax' & Hlow').
  destruct (Nat.lt_trichotomy (N.to_nat w) (N.to_nat w')) as [Hlt|[Heq|Hlt]];
    [|done|].
  - specialize (Hlow' _ _ Hlt Hp). specialize (Hmax _ _ Hp'). lia.
  - specialize (Hlow _ _ Hlt Hp'). specialize (Hmax' _ _ Hp). lia.
Qed.

Lemma winner_index_first_max s :
  proposals s <> [] -> exists p, first_max (proposals s) (winner_index s) p.
Proof. apply winner_scan_first_max. Qed.

Lemma getWinner_eq s :
  getWinner s =
    if proposals_length s =? 0 then (Ok msg_no_proposals, s)
    else
      match proposals s !! N.to_nat (winner_index s) with
      | Some p => (Ok (name p), s)
      | None => (Err (Panic 50), s)
      end.
Proof.
  unfold getWinner, bind, read, ret, proposal_at, winner_index.
  destruct (proposals_length s =? 0); [done|]. by destruct (proposals s !! _).
Qed.

(** ** Further theorems *)

(** X1: the owner is the deployer for the whole life of the ledger: after
    any history [owner()] returns the deployer, and [addProposal] from any
    other identity is rejected with the owner message. *)
Theorem owner_never_changes
    (deployer sender x : N) (tr : list Tx) (_name : string) :
  transact x CallOwner (run tr (deployed deployer)) =
    (Ok [VAddress deployer], run tr (deployed deployer)) /\
  (sender <> deployer ->
   transact sender (CallAddProposal _name) (run tr (deployed deployer)) =
     (Err (Revert "Only owner can call this function."),
      run tr (deployed deployer))).
Proof.
  split.
  - rewrite transact_owner. by rewrite owner_run.
  - intros Hne. rewrite transact_addProposal, owner_run.
    change (owner (deployed deployer)) with deployer.
    by apply N.eqb_neq in Hne as ->.
Qed.

Lemma owner_never_changes_witness :
  8 <> 7 /\
  transact 8 (CallAddProposal "Delta")
    (run [(7, CallAddProposal "Gamma"); (8, CallVote 0)] (deployed 7)) =
    (Err (Revert "Only owner can call this function."),
     run [(7, CallAddProposal "Gamma"); (8, CallVote 0)] (deployed 7)).
Proof.
  assert (8 <> 7) as H by lia.
  split; [exact H|].
  apply (owner_never_changes 7 8 0
           [(7, CallAddProposal "Gamma"); (8, CallVote 0)] "Delta").
  exact H.
Defined.

(** X2: the proposal array is append-only: whatever transactions run, the
    list of names only grows at its end, the number of proposals never
    decreases, and no vote count ever decreases. *)
Theorem proposals_append_only (s : State) (tr : list Tx) (i : N) :
  names s `prefix_of` names (run tr s) /\
  proposals_length s <= proposals_length (run tr s) /\
  voteCount_at i s <= voteCount_at i (run tr s).
Proof.
  split; [apply names_prefix_run|split].
  - rewrite (count_run proposals_length is_addProposal length_step). lia.
  - rewrite (count_run (voteCount_at i) (is_vote_for i) (voteCount_step i)).
    lia.
Qed.

(** X3: an index that [getProposal] has answered stays valid: after any
    further transactions [getProposal(i)] succeeds with the same name and
    a vote count at least as large. *)
Theorem getProposal_stable
    (s : State) (tr : list Tx) (i : N) (nm : string) (v : N) :
  getProposal i s = (Ok (nm, v), s) ->
  exists v',
    getProposal i (run tr s) = (Ok (nm, v'), run tr s) /\ v <= v'.
Proof.
  intros (p & Hp & <- & <-)%getProposal_inv.
  pose proof (names_prefix_run tr s) as [rest Hrest].
  assert (names (run tr s) !! N.to_nat i = Some (name p)) as Hn.
  { rewrite Hrest. apply lookup_app_l_Some. unfold names.
    by rewrite list_lookup_fmap, Hp. }
  unfold names in Hn. rewrite list_lookup_fmap in Hn.
  destruct (proposals (run tr s) !! N.to_nat i) as [p'|] eqn:Hp'; [|done].
  injection Hn as Hn.
  exists (voteCount p'). rewrite (getProposal_lookup _ _ _ Hp'), Hn.
  split; [done|].
  pose proof (count_run (voteCount_at i) (is_vote_for i) (voteCount_step i)
                tr s) as H.
  unfold voteCount_at in H. rewrite Hp, Hp' in H. simpl in H. lia.
Qed.

Lemma getProposal_stable_witness :
  getProposal 1 (deployed 7) =
    (Ok ("Proposal B: Support Initiative Beta", 0), deployed 7) /\
  exists v',
    getProposal 1
      (run [(8, CallVote 1); (7, CallAddProposal "Gamma")] (deployed 7)) =
    (Ok ("Proposal B: Support Initiative Beta", v'),
     run [(8, CallVote 1); (7, CallAddProposal "Gamma")] (deployed 7)) /\
    0 <= v'.
Proof.
  split; [reflexivity|].
  apply (getProposal_stable (deployed 7)
           [(8, CallVote 1); (7, CallAddProposal "Gamma")] 1).
  reflexivity.
Defined.

(** X4: a vote is final: once a [vote] call of [a] has been accepted,
    [hasVoted(a)] stays true and every later [vote] call of [a] is
    rejected, with the already-voted message when its index is valid. *)
Theorem vote_is_final
    (a i j : N) (s s' : State) (r : list Value) (tr : list Tx) :
  transact a (CallVote i) s = (Ok r, s') ->
  hasVoted_at a (run tr s') = true /\
  is_ok (fst (transact a (CallVote j) (run tr s'))) = false /\
  (j < proposals_length (run tr s') ->
   transact a (CallVote j) (run tr s') =
     (Err (Revert "Voting: You have already voted."), run tr s')).
Proof.
  intros Hacc.
  assert (hasVoted_at a s' = true) as Hv.
  { pose proof (hasVoted_step a a (CallVote i) s) as H.
    rewrite Hacc in H. simpl in H. rewrite N.eqb_refl in H.
    unfold voted_bit in H. destruct (hasVoted_at a s'); [done|].
    destruct (hasVoted_at a s); lia. }
  pose proof (hasVoted_monotone_run a tr s' Hv) as Hv'.
  split; [done|]. rewrite transact_vote, Hv'.
  split.
  - by destruct (j <? _).
  - intros Hj. by apply N.ltb_lt in Hj as ->.
Qed.

Lemma vote_is_final_witness :
  transact 8 (CallVote 1) (deployed 7) =
    (Ok [], run [(8, CallVote 1)] (deployed 7)) /\
  is_ok (fst (transact 8 (CallVote 2)
                (run [(9, CallVote 0)] (run [(8, CallVote 1)] (deployed 7)))))
    = false.
Proof.
  split; [reflexivity|].
  apply (vote_is_final 8 1 2 (deployed 7) (run [(8, CallVote 1)] (deployed 7))
           [] [(9, CallVote 0)]).
  reflexivity.
Defined.

(** X5: votes are conserved: after any history of a deployed ledger the
    vote counts of all proposals add up to the number of accepted [vote]
    calls, which is the number of entries of [hasVoted]; an identity has
    an entry exactly when [hasVoted] answers true for it. *)
Theorem votes_are_conserved (deployer a : N) (tr : list Tx) :
  total_votes (run tr (deployed deployer)) =
    N.of_nat (accepted is_vote tr (deployed deployer)) /\
  total_votes (run tr (deployed deployer)) =
    N.of_nat (size (hasVoted (run tr (deployed deployer)))) /\
  (hasVoted_at a (run tr (deployed deployer)) = true <->
   a ∈ dom (hasVoted (run tr (deployed deployer)))).
Proof.
  destruct (run_invariant votes_balanced votes_balanced_step tr _
              (votes_balanced_deployed deployer)) as [Hall Htot].
  split; [|split; [done|]].
  - rewrite (count_run total_votes is_vote total_votes_step).
    change (total_votes (deployed deployer)) with 0. lia.
  - rewrite elem_of_dom. unfold hasVoted_at. split.
    + destruct (hasVoted _ !! a); [eauto|done].
    + intros [b Hb]. rewrite Hb. simpl. by apply Hall in Hb.
Qed.

(** X6: no call ever reads the proposal array out of bounds: on every
    storage, for every caller and call, the outcome is not the
    array-index panic (code 0x32). *)
Theorem array_access_in_bounds (sender : N) (c : Call) (s : State) :
  fst (transact sender c s) <> Err (Panic 50).
Proof.
  destruct c as [_name|i| |i| | |]; try done.
  - rewrite transact_addProposal.
    destruct (_ =? _); [|done]. destruct (0 <? _); [|done].
    by destruct (_ <? 100).
  - rewrite transact_vote.
    destruct (i <? proposals_length s) eqn:Hi; [|done].
    destruct (hasVoted_at sender s); [done|].
    apply N.ltb_lt in Hi. unfold proposals_length in Hi.
    destruct (lookup_lt_is_Some_2 (proposals s) (N.to_nat i)) as [p ->];
      [lia|].
    by destruct (voteCount p <? UINT_MAX).
  - rewrite transact_getProposal.
    destruct (i <? proposals_length s) eqn:Hi; [|done].
    apply N.ltb_lt in Hi. unfold proposals_length in Hi.
    by destruct (lookup_lt_is_Some_2 (proposals s) (N.to_nat i)) as [p ->];
      [lia|].
  - rewrite transact_getWinner.
    destruct (proposals_length s =? 0) eqn:H0; [done|].
    apply N.eqb_neq in H0.
    destruct (winner_scan_first_max (proposals s)) as (p & -> & _); [|done].
    intros Hnil. apply H0. unfold proposals_length. by rewrite Hnil.
Qed.

Lemma array_access_in_bounds_witness :
  fst (transact 8 CallGetWinner (run [(8, CallVote 2)] (deployed 7))) <>
  Err (Panic 50).
Proof.
  apply (array_access_in_bounds 8 CallGetWinner
           (run [(8, CallVote 2)] (deployed 7))).
Defined.



(** X8: when the senders of the history are 160-bit addresses, a [vote]
    call is accepted exactly when its index is below the number of
    proposals and the caller has not voted yet. *)
Theorem vote_accepted_iff (deployer sender i : N) (tr : list Tx) :
  senders_in_range tr ->
  (is_ok (fst (transact sender (CallVote i) (run tr (deployed deployer))))
     = true
   <->
   i < proposals_length (run tr (deployed deployer)) /\
   hasVoted_at sender (run tr (deployed deployer)) = false).
Proof.
  intros [Hb Hr]%(bounded_deployed deployer).
  set (s := run tr (deployed deployer)) in *.
  rewrite transact_vote.
  destruct (i <? proposals_length s) eqn:Hi;
    [apply N.ltb_lt in Hi|apply N.ltb_ge in Hi; split; [done|lia]].
  destruct (hasVoted_at sender s); [split; [done|by intros [_ ?]]|].
  pose proof Hi as Hi'. unfold proposals_length in Hi'.
  destruct (lookup_lt_is_Some_2 (proposals s) (N.to_nat i)) as [p Hp];
    [lia|].
  by rewrite Hp, (voteCount_below_max s _ p Hb Hr Hp).
Qed.

Lemma vote_accepted_iff_witness :
  senders_in_range [(8, CallVote 1)] /\
  is_ok (fst (transact 9 (CallVote 2) (run [(8, CallVote 1)] (deployed 7))))
    = true.
Proof.
  assert (senders_in_range [(8, CallVote 1)]) as H by repeat constructor.
  split; [exact H|].
  apply (vote_accepted_iff 7 9 2 [(8, CallVote 1)] H).
  split; reflexivity.
Defined.

(** X9: the [ProposalAdded] events mirror the proposal array: after any
    history of a deployed ledger, the events read in order list every
    stored proposal once, with its index and its name. *)
Theorem added_events_mirror_proposals (deployer : N) (tr : list Tx) :
  added_log (events (run tr (deployed deployer))) =
  imap (fun i p => (N.of_nat i, name p))
    (proposals (run tr (deployed deployer))).
Proof.
  apply (run_invariant (fun s => added_log (events s) = expected_added s)).
  - intros sender c s. apply added_log_step.
  - reflexivity.
Qed.

(** X10: the [Voted] events mirror the votes: after any history of a
    deployed ledger no voter appears in two [Voted] events, an identity
    appears in one exactly when [hasVoted] answers true for it, and the
    events naming proposal [i] are as many as its vote count. *)
Theorem voted_events_mirror_votes (deployer a i : N) (tr : list Tx) :
  NoDup (fst <$> voted_log (events (run tr (deployed deployer)))) /\
  (a ∈ fst <$> voted_log (events (run tr (deployed deployer))) <->
   hasVoted_at a (run tr (deployed deployer)) = true) /\
  N.of_nat (votes_logged_for i (events (run tr (deployed deployer)))) =
    voteCount_at i (run tr (deployed deployer)).
Proof.
  destruct (run_invariant voted_log_matches voted_log_step tr _
              (voted_log_deployed deployer)) as (Hnd & Hmem & Hcnt).
  split; [done|split; [apply Hmem|apply Hcnt]].
Qed.

(** X11: an accepted vote for proposal [i] either leaves the winning
    index of [getWinner] where it was or moves it to [i]. *)
Theorem vote_moves_winner_only_to_voted
    (sender i : N) (s s' : State) (r : list Value) :
  transact sender (CallVote i) s = (Ok r, s') ->
  winner_index s' = winner_index s \/ winner_index s' = i.
Proof.
  rewrite transact_vote.
  destruct (i <? proposals_length s); [|done].
  destruct (hasVoted_at sender s); [done|].
  destruct (proposals s !! N.to_nat i) as [p|] eqn:Hp; [|done].
  destruct (voteCount p <? UINT_MAX); [|done].
  intros [= _ <-].
  assert (proposals s <> []) as Hne by (intros Hnil; by rewrite Hnil in Hp).
  assert (proposals (after_vote sender i p s) <> []) as Hne'.
  { simpl. intros Hnil%(f_equal length). rewrite length_insert in Hnil.
    by destruct (proposals s). }
  destruct (winner_index_first_max s Hne) as [q Hq].
  destruct (winner_index_first_max _ Hne') as [q' (Hq' & Hmax' & Hlow')].
  set (w' := winner_index (after_vote sender i p s)) in *.
  destruct (decide (N.to_nat w' = N.to_nat i)) as [Hwi|Hwi]; [right; lia|left].
  simpl in Hq', Hmax', Hlow'.
  rewrite list_lookup_insert_ne in Hq' by done.
  assert (forall j x, proposals s !! j = Some x ->
            exists x', <[N.to_nat i :=
                          {| name := name p; voteCount := voteCount p + 1 |}]>
                         (proposals s) !! j = Some x' /\
                       voteCount x <= voteCount x') as Hup.
  { intros j x Hx. destruct (decide (N.to_nat i = j)) as [<-|Hne''].
    - rewrite list_lookup_insert_eq by (by eapply lookup_lt_Some).
      eexists; split; [done|]. simplify_eq/=. lia.
    - rewrite list_lookup_insert_ne by done. eauto using N.le_refl. }
  assert (first_max (proposals s) w' q') as Hold.
  { split; [done|split].
    - intros j x Hx. destruct (Hup j x Hx) as (x' & Hx' & Hle).
      specialize (Hmax' _ _ Hx'). lia.
    - intros j x Hj Hx. destruct (Hup j x Hx) as (x' & Hx' & Hle).
      specialize (Hlow' _ _ Hj Hx'). lia. }
  pose proof (first_max_unique _ _ _ _ _ Hold Hq). lia.
Qed.

Lemma vote_moves_winner_only_to_voted_witness :
  transact 9 (CallVote 2) (run [(8, CallVote 1)] (deployed 7)) =
    (Ok [], run [(8, CallVote 1); (9, CallVote 2)] (deployed 7)) /\
  (winner_index (run [(8, CallVote 1); (9, CallVote 2)] (deployed 7)) =
     winner_index (run [(8, CallVote 1)] (deployed 7)) \/
   winner_index (run [(8, CallVote 1); (9, CallVote 2)] (deployed 7)) = 2).
Proof.
  split; [reflexivity|].
  apply (vote_moves_winner_only_to_voted 9 2
           (run [(8, CallVote 1)] (deployed 7)) _ []).
  reflexivity.
Defined.

(** X12: a deployed ledger is never empty: after any history the three
    seed names still head the list of names, so there are at least three
    proposals and [getWinner] answers with the name of a stored proposal,
    never through its no-proposals branch. *)
Theorem seeds_persist (deployer : N) (tr : list Tx) :
  [ "Proposal A: Fund Project Alpha";
    "Proposal B: Support Initiative Beta";
    "Proposal C: Allocate Resources Gamma" ]
    `prefix_of` names (run tr (deployed deployer)) /\
  3 <= proposals_length (run tr (deployed deployer)) /\
  exists p,
    p ∈ proposals (run tr (deployed deployer)) /\
    getWinner (run tr (deployed deployer)) =
      (Ok (name p), run tr (deployed deployer)).
Proof.
  pose proof (names_prefix_run tr (deployed deployer)) as Hpre.
  set (s := run tr (deployed deployer)) in *.
  assert (3 <= proposals_length s) as Hlen.
  { apply prefix_length in Hpre. unfold names in Hpre.
    rewrite !length_fmap in Hpre. unfold proposals_length.
    change (length (proposals (deployed deployer))) with 3%nat in Hpre. lia. }
  split; [exact Hpre|split; [exact Hlen|]].
  destruct (winner_scan_first_max (proposals s)) as (p & Hp & _).
  { intros Hnil. unfold proposals_length in Hlen. rewrite Hnil in Hlen.
    simpl in Hlen. lia. }
  exists p. split; [by eapply list_elem_of_lookup_2|].
  unfold getWinner, bind, read, ret, proposal_at.
  destruct (proposals_length s =? 0) eqn:H0; [apply N.eqb_eq in H0; lia|].
  by rewrite Hp.
Qed.

(** X13: what an accepted [vote(i)] of [sender] changes, and nothing else:
    the caller becomes recorded as having voted and proposal [i] gains one
    vote, while the owner, the names, the number of proposals, every
    other identity's record and every other vote count stay as they were;
    one [Voted(sender, i)] event is appended to the log. *)
Theorem vote_effect
    (sender i b j : N) (s s' : State) (r : list Value) :
  transact sender (CallVote i) s = (Ok r, s') ->
  hasVoted_at sender s = false /\
  hasVoted_at sender s' = true /\
  voteCount_at i s' = voteCount_at i s + 1 /\
  (b <> sender -> hasVoted_at b s' = hasVoted_at b s) /\
  (j <> i -> voteCount_at j s' = voteCount_at j s) /\
  names s' = names s /\
  owner s' = owner s /\
  events s' = (events s ++ [Voted sender i])%list.
Proof.
  rewrite transact_vote.
  destruct (i <? proposals_length s); [|done].
  destruct (hasVoted_at sender s) eqn:Hv; [done|].
  destruct (proposals s !! N.to_nat i) as [p|] eqn:Hp; [|done].
  destruct (voteCount p <? UINT_MAX); [|done].
  intros [= _ <-].
  split; [done|]. unfold hasVoted_at, voteCount_at, names; simpl.
  split; [by rewrite lookup_insert_eq|].
  split.
  { rewrite list_lookup_insert_eq by (by eapply lookup_lt_Some).
    by rewrite Hp. }
  split; [intros Hb; by rewrite lookup_insert_ne|].
  split; [intros Hj; rewrite list_lookup_insert_ne by lia; done|].
  split; [|done].
  rewrite list_fmap_insert; simpl.
  rewrite list_insert_id; [done|]. by rewrite list_lookup_fmap, Hp.
Qed.

Lemma vote_effect_witness :
  transact 8 (CallVote 1) (deployed 7) =
    (Ok [], run [(8, CallVote 1)] (deployed 7)) /\
  9 <> 8 /\ 2 <> 1 /\
  voteCount_at 1 (run [(8, CallVote 1)] (deployed 7)) =
    voteCount_at 1 (deployed 7) + 1 /\
  hasVoted_at 9 (run [(8, CallVote 1)] (deployed 7)) =
    hasVoted_at 9 (deployed 7) /\
  voteCount_at 2 (run [(8, CallVote 1)] (deployed 7)) =
    voteCount_at 2 (deployed 7).
Proof.
  assert (transact 8 (CallVote 1) (deployed 7) =
            (Ok [], run [(8, CallVote 1)] (deployed 7))) as H by reflexivity.
  assert (9 <> 8) as H98 by lia.
  assert (2 <> 1) as H21 by lia.
  destruct (vote_effect 8 1 9 2 (deployed 7) _ [] H)
    as (_ & _ & Hc & Hb & Hj & _).
  split; [exact H|]. split; [exact H98|]. split; [exact H21|].
  split; [exact Hc|]. split; [exact (Hb H98)|exact (Hj H21)].
Defined.

(** X14: adding a proposal never changes the current winner: after an
    accepted [addProposal] on a ledger that had proposals, the winning
    index and the answer of [getWinner] are what they were, and no vote
    count or voter record has changed. *)
Theorem addProposal_keeps_winner
    (sender a i : N) (_name : string) (s s' : State) (r : list Value) :
  transact sender (CallAddProposal _name) s = (Ok r, s') ->
  0 < proposals_length s ->
  winner_index s' = winner_index s /\
  fst (getWinner s') = fst (getWinner s) /\
  hasVoted_at a s' = hasVoted_at a s /\
  voteCount_at i s' = voteCount_at i s.
Proof.
  intros Hacc Hlen.
  pose proof (voteCount_step i sender (CallAddProposal _name) s) as Hvc.
  rewrite Hacc in Hvc. simpl in Hvc. rewrite N.add_0_r in Hvc.
  rewrite transact_addProposal in Hacc.
  destruct (sender =? owner s); [|done].
  destruct (0 <? bytes_length _name); [|done].
  destruct (bytes_length _name <? 100); [|done].
  injection Hacc as _ <-.
  assert (winner_index (after_addProposal _name s) = winner_index s) as Hw.
  { unfold winner_index; simpl. rewrite winner_scan_app; simpl.
    by destruct (winner_scan (proposals s) 0 (0, 0)) as [[|bv] bi]. }
  split; [exact Hw|]. split; [|split; [done|exact Hvc]].
  assert (proposals s <> []) as Hne.
  { intros Hnil. unfold proposals_length in Hlen. rewrite Hnil in Hlen.
    simpl in Hlen. lia. }
  destruct (winner_index_first_max s Hne) as (p & Hp & _).
  rewrite !getWinner_eq, Hw.
  replace (proposals_length (after_addProposal _name s) =? 0) with false.
  - replace (proposals_length s =? 0) with false
      by (symmetry; apply N.eqb_neq; lia).
    simpl. rewrite (lookup_app_l_Some _ _ _ _ Hp). by rewrite Hp.
  - symmetry. apply N.eqb_neq. unfold proposals_length; simpl.
    rewrite length_app; simpl. lia.
Qed.

Lemma addProposal_keeps_winner_witness :
  transact 7 (CallAddProposal "Delta") (run [(8, CallVote 2)] (deployed 7)) =
    (Ok [], run [(8, CallVote 2); (7, CallAddProposal "Delta")] (deployed 7)) /\
  0 < proposals_length (run [(8, CallVote 2)] (deployed 7)) /\
  winner_index (run [(8, CallVote 2); (7, CallAddProposal "Delta")] (deployed 7))
    = winner_index (run [(8, CallVote 2)] (deployed 7)).
Proof.
  split; [reflexivity|]. split; [reflexivity|].
  apply (addProposal_keeps_winner 7 0 0 "Delta"
           (run [(8, CallVote 2)] (deployed 7)) _ []); reflexivity.
Defined.

End Voting.
